(** * passion-ts-example: the bouncing-ball demo of [src/main.ts]

    The program is one [DOMContentLoaded] handler.  It looks the canvas
    up, builds the engine, declares six variables ([radius], [speed],
    [x], [y], [dx], [dy]) and hands two closures over these variables to
    [passion.system.run]: the update callback and the draw callback.

    The embedding follows the source statement by statement:
    - JavaScript numbers are an interface [Number].  Its instance for
      the program is IEEE-754 binary64 ([float]); statements that need
      no arithmetic are proved for every instance, statements about
      signs, magnitudes, NaN and rounding for binary64, from the
      specification of the primitive floats.  The exact rationals
      ([Qc]) are a second instance, for reference only: no property of
      the program rests on it;
    - the variables captured by the closures are a record [Scope];
    - the engine object is a record [Passion] that keeps the viewport
      extents and the list of calls it has received;
    - each callback is a function from [World] to [World]. *)

From Stdlib Require Import ZArith QArith Qcanon Lia.
From Stdlib Require Import Bool List String.
From Stdlib Require Floats.
Import ListNotations.

Set Implicit Arguments.

(** ** Numbers *)

Declare Scope js_scope.
Delimit Scope js_scope with js.

(** The operations the source applies to numbers: literals, [+], [-],
    [*], [/], unary [-] and the comparison [<=].  *)
Class Number (num : Type) : Type := {
  lit : Z -> num;
  add : num -> num -> num;
  sub : num -> num -> num;
  mul : num -> num -> num;
  div : num -> num -> num;
  neg : num -> num;
  leb : num -> num -> bool
}.

(** [a >= b] on JavaScript numbers holds exactly when [b <= a] does (both
    are false as soon as one side is NaN). *)
Definition geb {num} `{Number num} (a b : num) : bool := leb b a.

Infix "+" := add : js_scope.
Infix "-" := sub : js_scope.
Infix "*" := mul : js_scope.
Infix "/" := div : js_scope.
Notation "- a" := (neg a) : js_scope.
Infix "<=?" := leb : js_scope.
Infix ">=?" := geb (at level 70) : js_scope.

(** The laws of negation that statements below rely on for every
    implementation: negating is multiplying by -1, and negating twice
    gives the number back. *)
Class NumberLaws (num : Type) `{Number num} : Prop := {
  neg_scale : forall v : num, neg v = mul (lit (-1)) v;
  neg_involutive : forall v : num, neg (neg v) = v
}.

Arguments NumberLaws num {_}.

(** *** binary64 *)

Module Binary64.

(** An integer literal as a double: exact below 2^53. *)
Fixpoint of_pos (p : positive) : PrimFloat.float :=
  match p with
  | xH => PrimFloat.one
  | xO q => PrimFloat.mul PrimFloat.two (of_pos q)
  | xI q => PrimFloat.add (PrimFloat.mul PrimFloat.two (of_pos q)) PrimFloat.one
  end.

Definition of_Z (z : Z) : PrimFloat.float :=
  match z with
  | Z0 => PrimFloat.zero
  | Zpos p => of_pos p
  | Zneg p => PrimFloat.opp (of_pos p)
  end.

#[global] Instance double : Number PrimFloat.float :=
  Build_Number of_Z PrimFloat.add PrimFloat.sub PrimFloat.mul PrimFloat.div
               PrimFloat.opp PrimFloat.leb.

(** [2^52], the mantissa of the doubles 1 and -1. *)
Definition two52 : positive := 4503599627370496.

(** The double written [0.1] in JavaScript. *)
Definition tenth : PrimFloat.float :=
  PrimFloat.div PrimFloat.one (of_Z 10).

End Binary64.

(** *** exact rationals

    A reference instance: arithmetic without rounding, overflow,
    infinities, NaN or signed zeros.  It is not the arithmetic of the
    program, and no statement about the program is made over it alone. *)

Module Exact.

#[global] Instance rational : Number Qc :=
  Build_Number (fun z => Q2Qc (inject_Z z)) Qcplus Qcminus Qcmult Qcdiv
               Qcopp (fun a b => Qle_bool a b).

Definition tenth : Qc := Q2Qc (1 # 10).

End Exact.

Open Scope js_scope.

(** ** The engine, as far as the program uses it *)

(** The canvas element found in the page. *)
Inductive HTMLCanvasElement : Type :=
| canvas (id : string).

(** [document.getElementById]: the page maps ids to elements. *)
Definition Document : Type := string -> option HTMLCanvasElement.

Section Game.

Context {num : Type} `{Number num}.

(** A call received by the engine, with its arguments. *)
Inductive Call : Type :=
| system_init (w h : num) (title : string)
| math_rndi (lo hi : num)
| system_run
| graphics_cls (col : num)
| graphics_circ (cx cy r col : num)
| graphics_text (tx ty : num) (s : string) (col : num).

(** Modelled from the spec: the engine object [passion] is an external
    package, absent from the sources.  It is built on a rendering
    surface, [system.init] sets the viewport extents and the title,
    [system.width] and [system.height] read the extents back, and all
    other calls only leave a mark in [calls] (oldest first). *)
Record Passion : Type := {
  surface : HTMLCanvasElement;
  width : num;
  height : num;
  title : string;
  calls : list Call
}.

Definition received (c : Call) (p : Passion) : Passion :=
  {| surface := surface p; width := width p; height := height p;
     title := title p; calls := calls p ++ [c] |}.

(** Modelled from the spec: engine construction takes a rendering
    surface handle; nothing is configured before [system.init]. *)
Definition new_Passion (app : HTMLCanvasElement) : Passion :=
  {| surface := app; width := lit 0; height := lit 0;
     title := EmptyString; calls := [] |}.

(** Modelled from the spec: [system.init(width, height, title)]
    configures a fixed logical viewport size and the window title. *)
Definition init (w h : num) (t : string) (p : Passion) : Passion :=
  {| surface := surface p; width := w; height := h;
     title := t; calls := calls p ++ [system_init w h t] |}.

(** ** The variables of the handler *)

(** The six variables declared in the handler's [if] block and captured
    by both callbacks: [const radius], [const speed], [let x], [let y],
    [let dx], [let dy]. *)
Record Scope : Type := {
  radius : num;
  speed : num;
  x : num;
  y : num;
  dx : num;
  dy : num
}.

(** Everything a callback can reach: its captured variables and the
    engine. *)
Record World : Type := {
  vars : Scope;
  passion : Passion
}.

Definition assign_x (v : num) (w : World) : World :=
  let s := vars w in
  {| vars := {| radius := radius s; speed := speed s; x := v; y := y s;
                dx := dx s; dy := dy s |};
     passion := passion w |}.

Definition assign_y (v : num) (w : World) : World :=
  let s := vars w in
  {| vars := {| radius := radius s; speed := speed s; x := x s; y := v;
                dx := dx s; dy := dy s |};
     passion := passion w |}.

Definition assign_dx (v : num) (w : World) : World :=
  let s := vars w in
  {| vars := {| radius := radius s; speed := speed s; x := x s; y := y s;
                dx := v; dy := dy s |};
     passion := passion w |}.

Definition assign_dy (v : num) (w : World) : World :=
  let s := vars w in
  {| vars := {| radius := radius s; speed := speed s; x := x s; y := y s;
                dx := dx s; dy := v |};
     passion := passion w |}.

Definition call (c : Call) (w : World) : World :=
  {| vars := vars w; passion := received c (passion w) |}.

(** ** The update callback *)

(** [x += speed * dx * dt; y += speed * dy * dt;] *)
Definition move (dt : num) (w : World) : World :=
  let w := assign_x (x (vars w) + speed (vars w) * dx (vars w) * dt) w in
  let w := assign_y (y (vars w) + speed (vars w) * dy (vars w) * dt) w in
  w.

(** The test of the first [if]. *)
Definition hits_x (w : World) : bool :=
  (x (vars w) - radius (vars w) <=? lit 0)
  || (x (vars w) + radius (vars w) >=? width (passion w)).

(** The test of the second [if]. *)
Definition hits_y (w : World) : bool :=
  (y (vars w) - radius (vars w) <=? lit 0)
  || (y (vars w) + radius (vars w) >=? height (passion w)).

(** [if (...) { dx = -dx; } if (...) { dy = -dy; }] *)
Definition bounce (w : World) : World :=
  let w := if hits_x w then assign_dx (- dx (vars w)) w else w in
  let w := if hits_y w then assign_dy (- dy (vars w)) w else w in
  w.

(** [(dt: number) => { ... }], the first argument of [system.run]. *)
Definition update (dt : num) (w : World) : World :=
  bounce (move dt w).

(** ** The draw callback *)

Definition welcome : string := "Welcome to the passion engine!".

(** [() => { cls(2); circ(x, y, radius, 1); text(100, 50, ..., 15); }],
    the second argument of [system.run]. *)
Definition draw (w : World) : World :=
  let w := call (graphics_cls (lit 2)) w in
  let w := call (graphics_circ (x (vars w)) (y (vars w))
                               (radius (vars w)) (lit 1)) w in
  let w := call (graphics_text (lit 100) (lit 50) welcome (lit 15)) w in
  w.

(** ** The [DOMContentLoaded] handler *)

(** Modelled from the spec: [math.rndi(min, max)] is the engine's random
    source, absent from the sources.  [random n lo hi] is what the
    [n]-th call made to it returns (counting from 0) when asked for the
    range [lo .. hi]. *)
Variable random : nat -> num -> num -> num.

Definition is_rndi (c : Call) : bool :=
  match c with
  | math_rndi _ _ => true
  | _ => false
  end.

Definition rndi (lo hi : num) (p : Passion) : num * Passion :=
  (random (List.length (filter is_rndi (calls p))) lo hi,
   received (math_rndi lo hi) p).

(** What [system.run] is handed: the two closures, and the variables
    and engine they close over. *)
Record Game : Type := {
  world : World;
  on_update : num -> World -> World;
  on_draw : World -> World
}.

(** Effects of the handler on the host, outside the engine. *)
Inductive HostEvent : Type :=
| debugger_statement.

(** [passion.system.run(update, draw)] in a world [w]. *)
Definition demo (w : World) : Game :=
  {| world := w; on_update := update; on_draw := draw |}.

Record Outcome : Type := {
  host : list HostEvent;
  game : option Game
}.

Definition game_title : string := "My first, but wonderful game!".

(** The body of the handler.  The literal [-5] is the number minus
    five. *)
Definition on_DOMContentLoaded (document : Document) : Outcome :=
  match document "app"%string with
  | None => {| host := []; game := None |}
  | Some app =>
      let p := new_Passion app in
      let p := init (lit 360) (lit 240) game_title p in
      let radius := lit 16 in
      let speed := lit 20 in
      let x := lit 360 / lit 2 in
      let y := lit 240 / lit 2 in
      let (dx, p) := rndi (lit (-5)) (lit 5) p in
      let (dy, p) := rndi (lit (-5)) (lit 5) p in
      let p := received system_run p in
      {| host := [debugger_statement];
         game := Some (demo {| vars := {| radius := radius; speed := speed;
                                          x := x; y := y;
                                          dx := dx; dy := dy |};
                               passion := p |}) |}
  end.

(** ** The frame loop *)

(** Modelled from the spec: [system.run] begins the frame loop, which
    lives in the engine.  The host invokes the update callback (with the
    elapsed seconds) and the draw callback on its own schedule, one at a
    time; any finite schedule is a list of ticks. *)
Inductive Tick : Type :=
| tick_update (dt : num)
| tick_draw.

Definition frame (g : Game) (w : World) (t : Tick) : World :=
  match t with
  | tick_update dt => on_update g dt w
  | tick_draw => on_draw g w
  end.

Definition frames (g : Game) (ts : list Tick) (w : World) : World :=
  fold_left (frame g) ts w.

(** The world after the registered game has received the ticks [ts]. *)
Definition play (g : Game) (ts : list Tick) : World :=
  frames g ts (world g).

End Game.

(** ** Worlds used in the scenarios *)

Section Scenarios.

Context {num : Type} `{Number num}.

(** The engine once [system.init(360, 240, ...)] has run on the canvas
    of the page. *)
Definition viewport : Passion :=
  init (lit 360) (lit 240) game_title (new_Passion (canvas "app")).

(** A ball of radius 16 and speed 20 in that viewport. *)
Definition ball (bx by_ bdx bdy : num) : World :=
  {| vars := {| radius := lit 16; speed := lit 20;
                x := bx; y := by_; dx := bdx; dy := bdy |};
     passion := viewport |}.

(** A page with the canvas, and a page without. *)
Definition page_with_canvas : Document :=
  fun id => if String.eqb id "app" then Some (canvas id) else None.

Definition page_without_canvas : Document :=
  fun _ => None.

(** A random source that always answers the lower bound. *)
Definition lowest : nat -> num -> num -> num :=
  fun _ lo _ => lo.

End Scenarios.

Arguments Call : clear implicits.
Arguments Passion : clear implicits.
Arguments Scope : clear implicits.
Arguments World : clear implicits.
Arguments Game : clear implicits.
Arguments Outcome : clear implicits.
Arguments Tick : clear implicits.

(** ** Schedules and axes *)

Section Schedules.

Context {num : Type} `{Number num}.

Definition is_update (t : Tick num) : bool :=
  match t with
  | tick_update _ => true
  | tick_draw => false
  end.

Definition is_draw (t : Tick num) : bool :=
  match t with
  | tick_update _ => false
  | tick_draw => true
  end.

(** The calls made by the draw callback. *)
Definition is_drawing (c : Call num) : bool :=
  match c with
  | graphics_cls _ | graphics_circ _ _ _ _ | graphics_text _ _ _ _ => true
  | _ => false
  end.

(** The test of either [if], on a coordinate [p]. *)
Definition touching (r extent p : num) : bool :=
  (p - r <=? lit 0) || (p + r >=? extent).

(** What the update callback does to one axis, as written twice in the
    source: the coordinate [p] advances by [s * v * dt], and the
    velocity [v] is negated when [p - r <= 0] or [p + r >= extent]. *)
Definition axis_step (r s extent dt : num) (pv : num * num) : num * num :=
  let p := fst pv + s * snd pv * dt in
  (p, if touching r extent p then - snd pv else snd pv).

(** The two axes of a world: coordinate and velocity on an axis, and
    the viewport extent the coordinate is tested against. *)
Inductive Axis : Type :=
| horizontal
| vertical.

Definition on_axis (a : Axis) (w : World num) : num * num :=
  match a with
  | horizontal => (x (vars w), dx (vars w))
  | vertical => (y (vars w), dy (vars w))
  end.

Definition extent (a : Axis) (w : World num) : num :=
  match a with
  | horizontal => width (passion w)
  | vertical => height (passion w)
  end.

End Schedules.

(** A random source that always answers [v]. *)
Definition answering {num : Type} (v : num) : nat -> num -> num -> num :=
  fun _ _ _ => v.

(** A ball at [x = 2] moving left so fast that [speed * dx] overflows. *)
Definition overflowing_ball : World PrimFloat.float :=
  ball (lit 2) (lit 120) (lit (- 2 ^ 1020)) (lit 1).

(** A tick whose elapsed time, if it has one, is a finite double. *)
Definition finite_tick (t : Tick PrimFloat.float) : Prop :=
  match t with
  | tick_update dt => PrimFloat.is_finite dt = true
  | tick_draw => True
  end.

(** ** Shapes of binary64 values *)

Module Binary64Shape.

Import SpecFloat FloatOps.

(** Zero, negative or minus infinity. *)
Definition nonpos (R : spec_float) : Prop :=
  match R with
  | S754_zero _ | S754_finite true _ _ | S754_infinity true => True
  | _ => False
  end.

(** Zero, positive or plus infinity. *)
Definition nonneg (R : spec_float) : Prop :=
  match R with
  | S754_zero _ | S754_finite false _ _ | S754_infinity false => True
  | _ => False
  end.

(** Zero or a finite number. *)
Definition finite (R : spec_float) : Prop :=
  match R with
  | S754_zero _ | S754_finite _ _ _ => True
  | _ => False
  end.

Definition is_a_zero (R : spec_float) : Prop :=
  match R with
  | S754_zero _ => True
  | _ => False
  end.

(** [R] has sign [s] and, when finite, exponent at most [B]; it is
    infinite only if [B] is beyond the largest exponent. *)
Definition at_most (s : bool) (B : Z) (R : spec_float) : Prop :=
  match R with
  | S754_zero s' => s' = s
  | S754_finite s' _ e => s' = s /\ (e <= B)%Z
  | S754_infinity s' => s' = s /\ (emax - prec < B)%Z
  | S754_nan => False
  end.

(** Not NaN and, when positive, with exponent at most -50, so below 8. *)
Definition small (R : spec_float) : Prop :=
  match R with
  | S754_zero _ | S754_finite true _ _ | S754_infinity true => True
  | S754_finite false _ e => (e <= -50)%Z
  | _ => False
  end.

End Binary64Shape.

(** * Properties that hold for every implementation of numbers *)

Section Structure.

Context {num : Type} `{Number num}.

Implicit Types (w : World num) (dt : num).

(** ** What each statement touches *)

Lemma move_vars dt w :
  vars (move dt w) =
  {| radius := radius (vars w); speed := speed (vars w);
     x := x (vars w) + speed (vars w) * dx (vars w) * dt;
     y := y (vars w) + speed (vars w) * dy (vars w) * dt;
     dx := dx (vars w); dy := dy (vars w) |}.
Proof. reflexivity. Qed.

Lemma move_passion dt w : passion (move dt w) = passion w.
Proof. reflexivity. Qed.

Lemma bounce_vars w :
  vars (bounce w) =
  {| radius := radius (vars w); speed := speed (vars w);
     x := x (vars w); y := y (vars w);
     dx := if hits_x w then - dx (vars w) else dx (vars w);
     dy := if hits_y w then - dy (vars w) else dy (vars w) |}.
Proof.
  unfold bounce.
  assert (Hy : forall v, hits_y (assign_dx v w) = hits_y w) by reflexivity.
  destruct (hits_x w) eqn:Hx.
  - rewrite Hy. destruct (hits_y w); reflexivity.
  - destruct (hits_y w); destruct w as [[? ? ? ? ? ?] ?]; reflexivity.
Qed.

Lemma bounce_passion w : passion (bounce w) = passion w.
Proof.
  unfold bounce.
  destruct (hits_x w); [ | destruct (hits_y w); reflexivity ].
  destruct (hits_y (assign_dx _ w)); reflexivity.
Qed.

Lemma draw_vars w : vars (draw w) = vars w.
Proof. reflexivity. Qed.

Lemma draw_calls w :
  calls (passion (draw w)) =
  calls (passion w) ++
  [graphics_cls (lit 2);
   graphics_circ (x (vars w)) (y (vars w)) (radius (vars w)) (lit 1);
   graphics_text (lit 100) (lit 50) welcome (lit 15)].
Proof.
  unfold draw, call, received; cbn.
  now rewrite <- !app_assoc.
Qed.

(** ** The update callback *)

(** C1: after one call of the update callback the position is the
    previous position plus [speed * velocity * dt], componentwise, for
    every state and every [dt] (so in particular for every [dt >= 0]);
    the boundary check that follows leaves the position as it is and
    touches nothing but the velocity. *)
Theorem update_advances_position dt w :
  x (vars (update dt w)) = x (vars w) + speed (vars w) * dx (vars w) * dt
  /\ y (vars (update dt w)) = y (vars w) + speed (vars w) * dy (vars w) * dt
  /\ (forall m : World num,
        x (vars (bounce m)) = x (vars m)
        /\ y (vars (bounce m)) = y (vars m)
        /\ radius (vars (bounce m)) = radius (vars m)
        /\ speed (vars (bounce m)) = speed (vars m)
        /\ passion (bounce m) = passion m).
Proof.
  unfold update.
  repeat split; try (rewrite bounce_vars, ?move_vars; reflexivity).
  apply bounce_passion.
Qed.

(** C2: let [m] be the state after the position update.  If
    [x - radius <= 0] or [x + radius >= width] holds in [m], the x
    velocity after the update is -1 times the x velocity before the
    boundary check (the code writes [dx = -dx]); if it does not hold,
    the x velocity is unchanged.  The same holds for y against the
    height, whatever happened on the x axis.  The position update itself
    leaves the velocity alone. *)
Theorem update_bounces_velocity `{!NumberLaws num} dt w :
  let m := move dt w in
  dx (vars m) = dx (vars w) /\ dy (vars m) = dy (vars w)
  /\ ((x (vars m) - radius (vars m) <=? lit 0)
       || (x (vars m) + radius (vars m) >=? width (passion m)) = true ->
       dx (vars (update dt w)) = lit (-1) * dx (vars m)
       /\ dx (vars (update dt w)) = - dx (vars m))
  /\ ((x (vars m) - radius (vars m) <=? lit 0)
       || (x (vars m) + radius (vars m) >=? width (passion m)) = false ->
       dx (vars (update dt w)) = dx (vars m))
  /\ ((y (vars m) - radius (vars m) <=? lit 0)
       || (y (vars m) + radius (vars m) >=? height (passion m)) = true ->
       dy (vars (update dt w)) = lit (-1) * dy (vars m)
       /\ dy (vars (update dt w)) = - dy (vars m))
  /\ ((y (vars m) - radius (vars m) <=? lit 0)
       || (y (vars m) + radius (vars m) >=? height (passion m)) = false ->
       dy (vars (update dt w)) = dy (vars m)).
Proof.
  intros m. unfold update. fold m.
  rewrite bounce_vars. cbn [dx dy].
  change ((x (vars m) - radius (vars m) <=? lit 0)
          || (x (vars m) + radius (vars m) >=? width (passion m)))
    with (hits_x m).
  change ((y (vars m) - radius (vars m) <=? lit 0)
          || (y (vars m) + radius (vars m) >=? height (passion m)))
    with (hits_y m).
  split; [ reflexivity | ]. split; [ reflexivity | ].
  split; [ intros ->; split; [ apply neg_scale | reflexivity ] | ].
  split; [ intros ->; reflexivity | ].
  split; [ intros ->; split; [ apply neg_scale | reflexivity ] | ].
  intros ->; reflexivity.
Qed.

(** ** The draw callback *)

(** C5: two calls of the draw callback in a row, with no update in
    between, issue the same engine calls with the same arguments, a
    clear followed by the two draw calls (circle and text); the draw
    callback leaves all six variables, and the configuration of the
    engine, as they were. *)
Theorem draw_twice_same_calls w :
  let issued :=
    [graphics_cls (lit 2);
     graphics_circ (x (vars w)) (y (vars w)) (radius (vars w)) (lit 1);
     graphics_text (lit 100) (lit 50) welcome (lit 15)] in
  calls (passion (draw w)) = calls (passion w) ++ issued
  /\ calls (passion (draw (draw w))) = calls (passion (draw w)) ++ issued
  /\ vars (draw w) = vars w
  /\ vars (draw (draw w)) = vars w
  /\ width (passion (draw w)) = width (passion w)
  /\ height (passion (draw w)) = height (passion w).
Proof.
  intros issued. subst issued.
  rewrite (draw_calls (draw w)), !draw_vars, draw_calls.
  repeat split; reflexivity.
Qed.

(** C6: in every state where [radius] has its value 16, one call of the
    draw callback issues exactly three engine calls, in this order:
    [cls(2)], [circ(x, y, 16, 1)] at the current position, and
    [text(100, 50, 'Welcome to the passion engine!', 15)].  The callback
    yields nothing but the new world. *)
Theorem draw_issues_cls_circ_text w :
  radius (vars w) = lit 16 ->
  calls (passion (draw w)) =
  calls (passion w) ++
  [graphics_cls (lit 2);
   graphics_circ (x (vars w)) (y (vars w)) (lit 16) (lit 1);
   graphics_text (lit 100) (lit 50) "Welcome to the passion engine!"
                 (lit 15)].
Proof.
  intros Hr. rewrite draw_calls, Hr. reflexivity.
Qed.

Lemma update_keeps_or_negates dt w :
  (dx (vars (update dt w)) = dx (vars w)
   \/ dx (vars (update dt w)) = - dx (vars w))
  /\ (dy (vars (update dt w)) = dy (vars w)
      \/ dy (vars (update dt w)) = - dy (vars w)).
Proof.
  unfold update. rewrite bounce_vars, move_vars. cbn [dx dy].
  destruct (hits_x _), (hits_y _); auto.
Qed.

(** ** The frame loop *)

(** A property kept by both callbacks is kept by every schedule. *)
Lemma frames_preserve (P : World num -> Prop) :
  (forall dt w, P w -> P (update dt w)) ->
  (forall w, P w -> P (draw w)) ->
  forall ts w0 w, P w -> P (frames (demo w0) ts w).
Proof.
  intros Hu Hd ts w0. unfold frames.
  induction ts as [ | t ts IH ]; intros w Hw; cbn [fold_left].
  - exact Hw.
  - apply IH. destruct t as [ dt | ]; cbn; auto.
Qed.

Lemma update_constants dt w :
  radius (vars (update dt w)) = radius (vars w)
  /\ speed (vars (update dt w)) = speed (vars w)
  /\ passion (update dt w) = passion w.
Proof.
  unfold update. rewrite bounce_vars, bounce_passion, move_vars.
  repeat split; reflexivity.
Qed.

(** Along any schedule each velocity component is its first value or
    the negation of it. *)
Lemma play_keeps_or_negates `{!NumberLaws num} w ts :
  (dx (vars (play (demo w) ts)) = dx (vars w)
   \/ dx (vars (play (demo w) ts)) = - dx (vars w))
  /\ (dy (vars (play (demo w) ts)) = dy (vars w)
      \/ dy (vars (play (demo w) ts)) = - dy (vars w)).
Proof.
  unfold play. cbn [world demo].
  apply (frames_preserve
           (fun v => (dx (vars v) = dx (vars w)
                      \/ dx (vars v) = - dx (vars w))
                     /\ (dy (vars v) = dy (vars w)
                         \/ dy (vars v) = - dy (vars w)))).
  - intros dt v [Hx Hy].
    destruct (update_keeps_or_negates dt v) as [Ux Uy].
    split.
    + destruct Ux as [-> | ->], Hx as [-> | ->];
        rewrite ?neg_involutive; auto.
    + destruct Uy as [-> | ->], Hy as [-> | ->];
        rewrite ?neg_involutive; auto.
  - intros v Hv. exact Hv.
  - auto.
Qed.

Section Handler.

Variable random : nat -> num -> num -> num.

(** The world the handler starts the game in, on the canvas [app]. *)
Lemma handler_with_canvas (document : Document) app :
  document "app"%string = Some app ->
  on_DOMContentLoaded random document =
  {| host := [debugger_statement];
     game := Some (demo
       {| vars := {| radius := lit 16; speed := lit 20;
                     x := lit 360 / lit 2; y := lit 240 / lit 2;
                     dx := random 0%nat (lit (-5)) (lit 5);
                     dy := random 1%nat (lit (-5)) (lit 5) |};
          passion := {| surface := app;
                        width := lit 360; height := lit 240;
                        title := game_title;
                        calls := [system_init (lit 360) (lit 240) game_title;
                                  math_rndi (lit (-5)) (lit 5);
                                  math_rndi (lit (-5)) (lit 5);
                                  system_run] |} |}) |}.
Proof.
  intros Happ. unfold on_DOMContentLoaded. rewrite Happ. reflexivity.
Qed.

(** C9: the update callback writes [x], [y], [dx] and [dy] only: it
    leaves [radius] and [speed], and the engine, as they were.  The draw
    callback leaves [radius] and [speed] as they were too.  So after any
    schedule of update and draw calls they have the values they started
    with, which in the program are 16 and 20. *)
Theorem constants_never_modified :
  (forall dt w,
     radius (vars (update dt w)) = radius (vars w)
     /\ speed (vars (update dt w)) = speed (vars w)
     /\ passion (update dt w) = passion w)
  /\ (forall w,
        radius (vars (draw w)) = radius (vars w)
        /\ speed (vars (draw w)) = speed (vars w))
  /\ (forall w ts,
        radius (vars (play (demo w) ts)) = radius (vars w)
        /\ speed (vars (play (demo w) ts)) = speed (vars w))
  /\ (forall (document : Document) g ts,
        game (on_DOMContentLoaded random document) = Some g ->
        radius (vars (play g ts)) = lit 16
        /\ speed (vars (play g ts)) = lit 20).
Proof.
  assert (Hplay : forall w ts,
             radius (vars (play (demo w) ts)) = radius (vars w)
             /\ speed (vars (play (demo w) ts)) = speed (vars w)).
  { intros w ts. unfold play. cbn [world demo].
    apply (frames_preserve
             (fun v => radius (vars v) = radius (vars w)
                       /\ speed (vars v) = speed (vars w))).
    - intros dt v [Hr Hs].
      destruct (update_constants dt v) as (-> & -> & _). now split.
    - intros v Hv. exact Hv.
    - now split. }
  split; [ exact update_constants | ].
  split; [ intros w; split; reflexivity | ].
  split; [ exact Hplay | ].
  intros document g ts Hg.
  destruct (document "app"%string) as [ app | ] eqn:Happ.
  - rewrite (handler_with_canvas document Happ) in Hg.
    cbn [game] in Hg. injection Hg as <-.
    exact (Hplay _ ts).
  - unfold on_DOMContentLoaded in Hg. rewrite Happ in Hg. discriminate.
Qed.

(** C7: when [getElementById('app')] yields null the handler does
    nothing at all: no engine is built, so [system.init] and
    [system.run] receive no call, and nothing reaches the host.  When it
    yields an element, the engine is built on that element and
    initialised to 360 by 240 with the title, and [system.run] receives
    the update and the draw callback. *)
Theorem handler_guarded_by_canvas (document : Document) :
  (document "app"%string = None ->
   on_DOMContentLoaded random document = {| host := []; game := None |})
  /\ (forall app, document "app"%string = Some app ->
       exists w0,
         game (on_DOMContentLoaded random document) =
         Some {| world := w0; on_update := update; on_draw := draw |}
         /\ surface (passion w0) = app
         /\ width (passion w0) = lit 360
         /\ height (passion w0) = lit 240
         /\ title (passion w0) = "My first, but wonderful game!"%string
         /\ calls (passion w0) =
            [system_init (lit 360) (lit 240) "My first, but wonderful game!";
             math_rndi (lit (-5)) (lit 5);
             math_rndi (lit (-5)) (lit 5);
             system_run]).
Proof.
  split.
  - intros Happ. unfold on_DOMContentLoaded. now rewrite Happ.
  - intros app Happ. rewrite (handler_with_canvas document Happ).
    eexists. cbn [game]. split; [ reflexivity | ].
    repeat split; reflexivity.
Qed.

(** C8: the handler calls [math.rndi] exactly twice, both times as
    [rndi(-5, 5)]; the first result is the initial [dx] and the second
    the initial [dy].  If [rndi(min, max)] answers an integer between
    [min] and [max] inclusive, both are integers between -5 and 5. *)
Theorem initial_velocity_from_rndi (document : Document) app :
  document "app"%string = Some app ->
  (forall n (lo hi : Z), (lo <= hi)%Z ->
     exists k : Z, random n (lit lo) (lit hi) = lit k /\ (lo <= k <= hi)%Z) ->
  exists g,
    game (on_DOMContentLoaded random document) = Some g
    /\ filter is_rndi (calls (passion (world g))) =
       [math_rndi (lit (-5)) (lit 5); math_rndi (lit (-5)) (lit 5)]
    /\ dx (vars (world g)) = random 0%nat (lit (-5)) (lit 5)
    /\ dy (vars (world g)) = random 1%nat (lit (-5)) (lit 5)
    /\ (exists kx : Z, dx (vars (world g)) = lit kx /\ (-5 <= kx <= 5)%Z)
    /\ (exists ky : Z, dy (vars (world g)) = lit ky /\ (-5 <= ky <= 5)%Z).
Proof.
  intros Happ Hrange.
  rewrite (handler_with_canvas document Happ). cbn [game].
  eexists. split; [ reflexivity | ].
  cbn [world demo vars passion calls dx dy filter is_rndi].
  repeat split; try reflexivity; apply Hrange; lia.
Qed.

End Handler.

End Structure.

(** * The concrete tick of the specification *)

(** C3: viewport 360 by 240, radius 16, speed 20, the ball at (180, 120)
    with velocity (3, -2), and 0.1 seconds elapsed.  One call of the
    update callback puts the ball at (186, 116) and leaves the velocity
    (3, -2), neither boundary test being true.  This holds as computed
    in binary64 and as computed in exact arithmetic. *)
Theorem scenario_centre_tick :
  (update Binary64.tenth (ball (lit 180) (lit 120) (lit 3) (lit (-2)))
   = ball (lit 186) (lit 116) (lit 3) (lit (-2))
   /\ hits_x (move Binary64.tenth
                   (ball (lit 180) (lit 120) (lit 3) (lit (-2)))) = false
   /\ hits_y (move Binary64.tenth
                   (ball (lit 180) (lit 120) (lit 3) (lit (-2)))) = false)
  /\ (update Exact.tenth (ball (lit 180) (lit 120) (lit 3) (lit (-2)))
      = ball (lit 186) (lit 116) (lit 3) (lit (-2))
      /\ hits_x (move Exact.tenth
                      (ball (lit 180) (lit 120) (lit 3) (lit (-2)))) = false
      /\ hits_y (move Exact.tenth
                      (ball (lit 180) (lit 120) (lit 3) (lit (-2)))) = false).
Proof.
  repeat split; vm_compute; reflexivity.
Qed.

(** * binary64 obeys the laws of negation *)

Module Binary64Facts.

Import SpecFloat FloatOps FloatAxioms.
Import Binary64.

(** [Binary64.tenth] is the double that the literal [0.1] denotes,
    [0x1.999999999999ap-4]. *)
Lemma tenth_bits :
  Prim2SF Binary64.tenth = S754_finite false 7205759403792794 (-56).
Proof. reflexivity. Qed.

Lemma minus_one_bits :
  Prim2SF (lit (-1)) = S754_finite true two52 (-52).
Proof. reflexivity. Qed.

Lemma shift_back (m : positive) :
  iter_pos shr_1 52
    {| shr_m := Zpos (two52 * m); shr_r := false; shr_s := false |}
  = {| shr_m := Zpos m; shr_r := false; shr_s := false |}.
Proof. reflexivity. Qed.

Lemma digits_scaled (m : positive) :
  Zpos (digits2_pos (two52 * m)) = (Zpos (digits2_pos m) + 52)%Z.
Proof. unfold two52. cbn [Pos.mul digits2_pos]. lia. Qed.

(** Rounding [m * 2^52] at exponent [e - 52] gives [m] at exponent [e]
    back, for every mantissa and exponent of a double. *)
Lemma round_scaled (s : bool) (m : positive) (e : Z) :
  bounded prec emax m e = true ->
  binary_round_aux prec emax s (Zpos (two52 * m)) (-52 + e) loc_Exact
  = S754_finite s m e.
Proof.
  unfold bounded, canonical_mantissa. intros [Hc He]%andb_prop.
  apply Z.eqb_eq in Hc.
  unfold binary_round_aux.
  unfold shr_fexp at 1. unfold Zdigits2. rewrite digits_scaled.
  replace (Z.pos (digits2_pos m) + 52 + (-52 + e))%Z
    with (Z.pos (digits2_pos m) + e)%Z by lia.
  rewrite Hc. replace (e - (-52 + e))%Z with 52%Z by lia.
  cbn [shr shr_record_of_loc]. rewrite shift_back.
  cbn [shr_m loc_of_shr_record round_nearest_even].
  unfold shr_fexp, Zdigits2.
  replace (-52 + e + 52)%Z with e by lia.
  rewrite Hc, Z.sub_diag. cbn [shr shr_record_of_loc shr_m].
  rewrite He. reflexivity.
Qed.

Lemma opp_is_times_minus_one (v : PrimFloat.float) :
  PrimFloat.opp v = PrimFloat.mul (lit (-1)) v.
Proof.
  apply Prim2SF_inj. rewrite opp_spec, mul_spec, minus_one_bits.
  pose proof (Prim2SF_valid v) as Hv.
  destruct (Prim2SF v) as [ s | s | | s m e ]; try reflexivity.
  cbn [SFopp]. unfold SF64mul, SFmul. cbn [xorb].
  rewrite round_scaled by exact Hv.
  destruct s; reflexivity.
Qed.

Lemma opp_involutive (v : PrimFloat.float) :
  PrimFloat.opp (PrimFloat.opp v) = v.
Proof.
  apply Prim2SF_inj. rewrite !opp_spec.
  destruct (Prim2SF v) as [ s | s | | s m e ]; cbn [SFopp];
    rewrite ?negb_involutive; reflexivity.
Qed.

#[global] Instance double_laws : NumberLaws PrimFloat.float.
Proof.
  split.
  - exact opp_is_times_minus_one.
  - exact opp_involutive.
Qed.

End Binary64Facts.

(** * The exact rationals obey the laws of negation too *)

Module ExactFacts.

Import Exact.

#[global] Instance rational_laws : NumberLaws Qc.
Proof.
  split; intros v; cbn [neg mul lit rational].
  - replace (Q2Qc (inject_Z (-1))) with (- (1))%Qc
      by (apply Qc_is_canon; reflexivity).
    ring.
  - ring.
Qed.

Implicit Types (w : World Qc) (dt : Qc).

End ExactFacts.

(** * The general statements at concrete inputs *)

(** The ball at [x = 2] moving left and down in binary64: after 0.1
    seconds it is at [x = -4], so [dx] flips from -3 to 3; on the y axis
    no test is true and [dy] stays 2. *)
Lemma update_bounces_velocity_witness :
  dx (vars (update Binary64.tenth
              (ball (lit 2) (lit 120) (lit (-3)) (lit 2)))) = lit 3
  /\ dy (vars (update Binary64.tenth
                 (ball (lit 2) (lit 120) (lit (-3)) (lit 2)))) = lit 2.
Proof.
  pose proof (update_bounces_velocity Binary64.tenth
                (ball (lit 2) (lit 120) (lit (-3)) (lit 2)))
    as (_ & _ & Hx & _ & _ & Hy).
  split.
  - rewrite (proj1 (Hx eq_refl)). vm_compute. reflexivity.
  - rewrite (Hy eq_refl). vm_compute. reflexivity.
Defined.

Lemma draw_issues_cls_circ_text_witness :
  radius (vars (ball (lit 180) (lit 120) (lit 3) (lit (-2))))
  = (lit 16 : PrimFloat.float)
  /\ calls (passion (draw (ball (lit 180) (lit 120) (lit 3) (lit (-2))))) =
     [system_init (lit 360) (lit 240) "My first, but wonderful game!";
      graphics_cls (lit 2);
      graphics_circ (lit 180) (lit 120) (lit 16) (lit 1 : PrimFloat.float);
      graphics_text (lit 100) (lit 50) "Welcome to the passion engine!"
                    (lit 15)].
Proof.
  split; [ reflexivity | ].
  rewrite (@draw_issues_cls_circ_text PrimFloat.float _
             (ball (lit 180) (lit 120) (lit 3) (lit (-2))) eq_refl).
  reflexivity.
Defined.

Lemma handler_guarded_by_canvas_witness :
  on_DOMContentLoaded (num := PrimFloat.float) lowest page_without_canvas
  = {| host := []; game := None |}
  /\ exists w0,
       game (on_DOMContentLoaded (num := PrimFloat.float)
               lowest page_with_canvas)
       = Some {| world := w0; on_update := update; on_draw := draw |}
       /\ surface (passion w0) = canvas "app".
Proof.
  split.
  - apply (proj1 (handler_guarded_by_canvas lowest page_without_canvas)).
    reflexivity.
  - destruct (proj2 (handler_guarded_by_canvas (num := PrimFloat.float)
                       lowest page_with_canvas)
                    (canvas "app") eq_refl)
      as (w0 & Hg & Hs & _).
    exists w0. split; assumption.
Defined.

Lemma initial_velocity_from_rndi_witness :
  exists g : Game Qc,
    game (on_DOMContentLoaded lowest page_with_canvas) = Some g
    /\ dx (vars (world g)) = lit (-5)
    /\ dy (vars (world g)) = lit (-5).
Proof.
  destruct (@initial_velocity_from_rndi Qc _ lowest page_with_canvas
              (canvas "app") eq_refl)
    as (g & Hg & _ & Hdx & Hdy & _).
  - intros n lo hi Hle. exists lo. split; [ reflexivity | lia ].
  - exists g. repeat split; assumption.
Defined.

Lemma constants_never_modified_witness :
  exists g : Game PrimFloat.float,
    game (on_DOMContentLoaded lowest page_with_canvas) = Some g
    /\ radius (vars (play g [tick_update Binary64.tenth; tick_draw;
                             tick_update (lit 1)])) = lit 16
    /\ speed (vars (play g [tick_update Binary64.tenth; tick_draw;
                            tick_update (lit 1)])) = lit 20.
Proof.
  eexists. split; [ reflexivity | ].
  apply (proj2 (proj2 (proj2 (constants_never_modified lowest)))
               page_with_canvas).
  reflexivity.
Defined.

(** * More on schedules, for every implementation of numbers *)

Section ScheduleFacts.

Context {num : Type} `{Number num}.

Implicit Types (w v : World num) (dt : num) (ts : list (Tick num)).

(** Each axis of the update callback is [axis_step] on that axis. *)
Lemma update_on_axis a dt w :
  on_axis a (update dt w)
  = axis_step (radius (vars w)) (speed (vars w)) (extent a w) dt
              (on_axis a w).
Proof.
  unfold update. destruct a; cbn [on_axis extent];
    rewrite bounce_vars, move_vars; reflexivity.
Qed.

(** The variables after an update are determined by the variables
    before it and the viewport extents. *)
Lemma update_agree dt w1 w2 :
  vars w1 = vars w2 ->
  width (passion w1) = width (passion w2) ->
  height (passion w1) = height (passion w2) ->
  vars (update dt w1) = vars (update dt w2)
  /\ width (passion (update dt w1)) = width (passion (update dt w2))
  /\ height (passion (update dt w1)) = height (passion (update dt w2)).
Proof.
  intros Hv Hw Hh. unfold update.
  rewrite !bounce_passion, !move_passion. split; [ | now split ].
  rewrite !bounce_vars. unfold hits_x, hits_y.
  rewrite !move_vars, !move_passion, Hv, Hw, Hh. reflexivity.
Qed.

Lemma frames_agree ts : forall w0 w1 w2,
  vars w1 = vars w2 ->
  width (passion w1) = width (passion w2) ->
  height (passion w1) = height (passion w2) ->
  vars (frames (demo w0) ts w1)
  = vars (frames (demo w0) (filter is_update ts) w2).
Proof.
  induction ts as [ | [ dt | ] ts IH ]; intros w0 w1 w2 Hv Hw Hh.
  - exact Hv.
  - cbn [filter is_update]. unfold frames. cbn [fold_left frame on_update demo].
    destruct (update_agree dt w1 w2 Hv Hw Hh) as (Uv & Uw & Uh).
    exact (IH w0 _ _ Uv Uw Uh).
  - cbn [filter is_update]. unfold frames at 1.
    cbn [fold_left frame on_draw demo].
    apply IH; assumption.
Qed.

(** X1: the draw callback has no influence on the ball.  After any
    schedule the six variables are what they would be had only the
    update ticks of the schedule run, in the same order. *)
Theorem draws_do_not_move_the_ball w ts :
  vars (play (demo w) ts) = vars (play (demo w) (filter is_update ts)).
Proof.
  unfold play. cbn [world demo]. now apply frames_agree.
Qed.

Lemma frames_log ts : forall w0 w,
  (exists added,
     calls (passion (frames (demo w0) ts w)) = calls (passion w) ++ added
     /\ Forall (fun c => is_drawing c = true) added
     /\ List.length added = (3 * List.length (filter is_draw ts))%nat)
  /\ surface (passion (frames (demo w0) ts w)) = surface (passion w)
  /\ width (passion (frames (demo w0) ts w)) = width (passion w)
  /\ height (passion (frames (demo w0) ts w)) = height (passion w)
  /\ title (passion (frames (demo w0) ts w)) = title (passion w).
Proof.
  induction ts as [ | [ dt | ] ts IH ]; intros w0 w.
  - split; [ | repeat split ].
    exists []. rewrite app_nil_r. repeat split. constructor.
  - unfold frames. cbn [fold_left frame on_update demo filter is_draw].
    fold (frames (demo w0) ts (update dt w)).
    destruct (IH w0 (update dt w)) as [(added & Hc & Hd & Hl) Hcfg].
    destruct (update_constants dt w) as (_ & _ & Hp). rewrite Hp in *.
    split; [ | exact Hcfg ].
    exists added. repeat split; assumption.
  - unfold frames. cbn [fold_left frame on_draw demo filter is_draw].
    fold (frames (demo w0) ts (draw w)).
    destruct (IH w0 (draw w)) as [(added & Hc & Hd & Hl) Hcfg].
    split; [ | exact Hcfg ].
    rewrite draw_calls, <- app_assoc in Hc.
    eexists. split; [ exact Hc | ]. split.
    + repeat (constructor; [ reflexivity | ]). exact Hd.
    + cbn [List.length app]. rewrite Hl. lia.
Qed.

(** X2: along any schedule the engine's call list only grows, and only
    by drawing calls: it is the list at the start followed by three
    drawing calls per draw tick and nothing per update tick.  The
    surface, the viewport extents and the title stay as they were. *)
Theorem schedule_only_adds_drawing_calls w ts :
  (exists added,
     calls (passion (play (demo w) ts)) = calls (passion w) ++ added
     /\ Forall (fun c => is_drawing c = true) added
     /\ List.length added = (3 * List.length (filter is_draw ts))%nat)
  /\ surface (passion (play (demo w) ts)) = surface (passion w)
  /\ width (passion (play (demo w) ts)) = width (passion w)
  /\ height (passion (play (demo w) ts)) = height (passion w)
  /\ title (passion (play (demo w) ts)) = title (passion w).
Proof.
  unfold play. cbn [world demo]. apply frames_log.
Qed.

Lemma filter_none {A} (f : A -> bool) (l : list A) :
  Forall (fun a => f a = true) l -> filter (fun a => negb (f a)) l = [].
Proof.
  induction 1 as [ | a l Ha _ IH ]; [ reflexivity | ].
  cbn [filter]. rewrite Ha. exact IH.
Qed.

(** X3: in the program the engine is set up once.  Whatever the
    schedule, the calls that are not drawing calls are the four made by
    the handler, [init(360, 240, title)], [rndi(-5, 5)] twice and [run],
    and the viewport stays 360 by 240. *)
Theorem setup_happens_once
    (random : nat -> num -> num -> num) (document : Document) app ts :
  document "app"%string = Some app ->
  exists g,
    game (on_DOMContentLoaded random document) = Some g
    /\ filter (fun c => negb (is_drawing c)) (calls (passion (play g ts)))
       = [system_init (lit 360) (lit 240) "My first, but wonderful game!";
          math_rndi (lit (-5)) (lit 5);
          math_rndi (lit (-5)) (lit 5);
          system_run]
    /\ width (passion (play g ts)) = lit 360
    /\ height (passion (play g ts)) = lit 240.
Proof.
  intros Happ. rewrite (handler_with_canvas random document Happ).
  cbn [game]. eexists. split; [ reflexivity | ].
  unfold play. cbn [world demo].
  match goal with |- context [frames (demo ?w0) ts ?w0] =>
    destruct (frames_log ts w0 w0)
      as ((added & Hc & Hd & _) & _ & Hw & Hh & _) end.
  rewrite Hc, Hw, Hh, filter_app, (filter_none _ Hd), app_nil_r.
  repeat split; reflexivity.
Qed.

(** X4: the two axes do not influence each other.  Two worlds that
    agree on [x], [dx], [radius], [speed] and the viewport width agree
    on [x] and [dx] after an update, whatever their [y], [dy], height
    and call lists; and likewise for [y] and [dy] with the height. *)
Theorem axes_are_independent dt w1 w2 :
  radius (vars w1) = radius (vars w2) ->
  speed (vars w1) = speed (vars w2) ->
  (x (vars w1) = x (vars w2) ->
   dx (vars w1) = dx (vars w2) ->
   width (passion w1) = width (passion w2) ->
   x (vars (update dt w1)) = x (vars (update dt w2))
   /\ dx (vars (update dt w1)) = dx (vars (update dt w2)))
  /\ (y (vars w1) = y (vars w2) ->
      dy (vars w1) = dy (vars w2) ->
      height (passion w1) = height (passion w2) ->
      y (vars (update dt w1)) = y (vars (update dt w2))
      /\ dy (vars (update dt w1)) = dy (vars (update dt w2))).
Proof.
  intros Hr Hs. split.
  - intros Hx Hd Hw.
    pose proof (update_on_axis horizontal dt w1) as E1.
    pose proof (update_on_axis horizontal dt w2) as E2.
    cbn [on_axis extent] in E1, E2.
    rewrite Hr, Hs, Hw, Hx, Hd, <- E2 in E1.
    now injection E1.
  - intros Hy Hd Hh.
    pose proof (update_on_axis vertical dt w1) as E1.
    pose proof (update_on_axis vertical dt w2) as E2.
    cbn [on_axis extent] in E1, E2.
    rewrite Hr, Hs, Hh, Hy, Hd, <- E2 in E1.
    now injection E1.
Qed.

End ScheduleFacts.

(** * A NaN in binary64 *)

Module Binary64Edge.

Import SpecFloat FloatOps FloatAxioms.

Implicit Types (w v : World PrimFloat.float) (a b : PrimFloat.float).

Lemma nan_bits : Prim2SF PrimFloat.nan = S754_nan.
Proof. reflexivity. Qed.

Lemma add_nan_l b : PrimFloat.add PrimFloat.nan b = PrimFloat.nan.
Proof.
  apply Prim2SF_inj. rewrite add_spec, nan_bits. reflexivity.
Qed.

Lemma add_nan_r a : PrimFloat.add a PrimFloat.nan = PrimFloat.nan.
Proof.
  apply Prim2SF_inj. rewrite add_spec, nan_bits.
  destruct (Prim2SF a); reflexivity.
Qed.

Lemma sub_nan_l b : PrimFloat.sub PrimFloat.nan b = PrimFloat.nan.
Proof.
  apply Prim2SF_inj. rewrite sub_spec, nan_bits. reflexivity.
Qed.

Lemma mul_nan_r a : PrimFloat.mul a PrimFloat.nan = PrimFloat.nan.
Proof.
  apply Prim2SF_inj. rewrite mul_spec, nan_bits.
  destruct (Prim2SF a); reflexivity.
Qed.

Lemma leb_nan_l b : PrimFloat.leb PrimFloat.nan b = false.
Proof. rewrite leb_spec, nan_bits. reflexivity. Qed.

Lemma leb_nan_r a : PrimFloat.leb a PrimFloat.nan = false.
Proof.
  rewrite leb_spec, nan_bits. destruct (Prim2SF a); reflexivity.
Qed.

(** No wall is touched at a NaN coordinate. *)
Lemma touching_nan r W : touching r W PrimFloat.nan = false.
Proof.
  unfold touching, geb. cbn [leb sub add lit Binary64.double].
  now rewrite sub_nan_l, add_nan_l, leb_nan_l, leb_nan_r.
Qed.

Lemma axis_step_nan r s W dt d :
  axis_step r s W dt (PrimFloat.nan, d) = (PrimFloat.nan, d).
Proof.
  unfold axis_step. cbn [fst snd add Binary64.double].
  now rewrite add_nan_l, touching_nan.
Qed.

Lemma axis_step_nan_dt r s W p d :
  axis_step r s W PrimFloat.nan (p, d) = (PrimFloat.nan, d).
Proof.
  unfold axis_step. cbn [fst snd add mul Binary64.double].
  now rewrite mul_nan_r, add_nan_r, touching_nan.
Qed.

Lemma axis_lost (a : Axis) w ts :
  fst (on_axis a w) = PrimFloat.nan ->
  on_axis a (play (demo w) ts) = (PrimFloat.nan, snd (on_axis a w)).
Proof.
  intros Hnan. unfold play. cbn [world demo].
  apply (frames_preserve
           (fun v => on_axis a v = (PrimFloat.nan, snd (on_axis a w)))).
  - intros dt v Hv. now rewrite update_on_axis, Hv, axis_step_nan.
  - intros v Hv. destruct a; exact Hv.
  - rewrite <- Hnan. now destruct (on_axis a w).
Qed.

(** X9: the elapsed time is not validated.  In binary64 an update with
    a NaN elapsed time turns both coordinates into NaN and leaves the
    velocity as it is; and once a coordinate is NaN it is NaN after
    every later schedule, the velocity on that axis never flipping
    again, since no comparison with NaN is true. *)
Theorem nan_is_never_recovered :
  (forall w,
     x (vars (update PrimFloat.nan w)) = PrimFloat.nan
     /\ y (vars (update PrimFloat.nan w)) = PrimFloat.nan
     /\ dx (vars (update PrimFloat.nan w)) = dx (vars w)
     /\ dy (vars (update PrimFloat.nan w)) = dy (vars w))
  /\ (forall w ts,
        x (vars w) = PrimFloat.nan ->
        x (vars (play (demo w) ts)) = PrimFloat.nan
        /\ dx (vars (play (demo w) ts)) = dx (vars w))
  /\ (forall w ts,
        y (vars w) = PrimFloat.nan ->
        y (vars (play (demo w) ts)) = PrimFloat.nan
        /\ dy (vars (play (demo w) ts)) = dy (vars w)).
Proof.
  split; [ | split ].
  - intros w.
    pose proof (update_on_axis horizontal PrimFloat.nan w) as Ex.
    pose proof (update_on_axis vertical PrimFloat.nan w) as Ey.
    cbn [on_axis] in Ex, Ey. rewrite axis_step_nan_dt in Ex, Ey.
    injection Ex as -> ->. injection Ey as -> ->. repeat split.
  - intros w ts Hnan.
    pose proof (@axis_lost horizontal w ts Hnan) as E.
    cbn [on_axis snd] in E. injection E as -> ->. now split.
  - intros w ts Hnan.
    pose proof (@axis_lost vertical w ts Hnan) as E.
    cbn [on_axis snd] in E. injection E as -> ->. now split.
Qed.

End Binary64Edge.

(** * The further statements at concrete inputs *)

(** binary64, a draw, an update and a draw after the handler: the four
    set-up calls are still the only calls that are not drawing calls. *)
Lemma setup_happens_once_witness :
  exists g : Game PrimFloat.float,
    game (on_DOMContentLoaded lowest page_with_canvas) = Some g
    /\ filter (fun c => negb (is_drawing c))
              (calls (passion (play g [tick_draw;
                                       tick_update Binary64.tenth;
                                       tick_draw])))
       = [system_init (lit 360) (lit 240) "My first, but wonderful game!";
          math_rndi (lit (-5)) (lit 5);
          math_rndi (lit (-5)) (lit 5);
          system_run].
Proof.
  destruct (@setup_happens_once PrimFloat.float _ lowest page_with_canvas
              (canvas "app")
              [tick_draw; tick_update Binary64.tenth; tick_draw] eq_refl)
    as (g & Hg & Hc & _).
  exists g. split; assumption.
Defined.

(** Two balls with the same x data and different y data, in binary64. *)
Lemma axes_are_independent_witness :
  x (vars (update Binary64.tenth (ball (lit 2) (lit 120) (lit (-3)) (lit 2))))
  = x (vars (update Binary64.tenth (ball (lit 2) (lit 230) (lit (-3)) (lit 5))))
  /\ dx (vars (update Binary64.tenth
                 (ball (lit 2) (lit 120) (lit (-3)) (lit 2))))
     = dx (vars (update Binary64.tenth
                   (ball (lit 2) (lit 230) (lit (-3)) (lit 5)))).
Proof.
  exact (proj1 (@axes_are_independent PrimFloat.float _ Binary64.tenth
                  (ball (lit 2) (lit 120) (lit (-3)) (lit 2))
                  (ball (lit 2) (lit 230) (lit (-3)) (lit 5))
                  eq_refl eq_refl)
               eq_refl eq_refl eq_refl).
Defined.

(** A ball whose x is NaN, after two updates and a draw. *)
Lemma nan_is_never_recovered_witness :
  x (vars (play (demo (ball PrimFloat.nan (lit 120) (lit 3) (lit (-2))))
                [tick_update Binary64.tenth; tick_draw;
                 tick_update (lit 1)])) = PrimFloat.nan
  /\ dx (vars (play (demo (ball PrimFloat.nan (lit 120) (lit 3) (lit (-2))))
                    [tick_update Binary64.tenth; tick_draw;
                     tick_update (lit 1)])) = lit 3.
Proof.
  pose proof Binary64Edge.nan_is_never_recovered as (_ & Hlost & _).
  apply (Hlost (ball PrimFloat.nan (lit 120) (lit 3) (lit (-2)))).
  reflexivity.
Defined.

(** * Rounding in binary64 *)

Module Binary64Rounding.

Import SpecFloat FloatOps FloatAxioms.
Import Binary64 Binary64Shape.

Local Open Scope Z_scope.
Local Unset Implicit Arguments.

Lemma digits_log2 (p : positive) : Zpos (digits2_pos p) = Z.log2 (Zpos p) + 1.
Proof.
  induction p as [ p IH | p IH | ]; cbn [digits2_pos]; trivial;
    rewrite Pos2Z.inj_succ, IH.
  - change (Z.log2 (Z.pos p~1)) with (Z.pos (Pos.size p)).
    destruct p; cbn [Z.log2 Pos.size]; lia.
  - change (Z.log2 (Z.pos p~0)) with (Z.pos (Pos.size p)).
    destruct p; cbn [Z.log2 Pos.size]; lia.
Qed.

Lemma Zdigits2_log2 (m : Z) : 0 < m -> Zdigits2 m = Z.log2 m + 1.
Proof. destruct m; try lia. intros _. apply digits_log2. Qed.

Lemma Zdigits2_nonneg m : 0 <= Zdigits2 m.
Proof. destruct m; cbn; lia. Qed.

Lemma Zdigits2_mono a b : 0 <= a <= b -> Zdigits2 a <= Zdigits2 b.
Proof.
  intros [Ha Hab]. destruct (Z.eq_dec a 0) as [-> | Hn].
  - apply Zdigits2_nonneg.
  - rewrite !Zdigits2_log2 by lia.
    pose proof (Z.log2_le_mono a b Hab). lia.
Qed.

Lemma Zdigits2_succ a : 0 <= a -> Zdigits2 (a + 1) <= Zdigits2 a + 1.
Proof.
  intros Ha. destruct (Z.eq_dec a 0) as [-> | Hn]; [ cbn; lia | ].
  rewrite !Zdigits2_log2 by lia.
  pose proof (Z.log2_succ_le a) as H. unfold Z.succ in H. lia.
Qed.

Lemma digits_iter_xO (m d : positive) :
  Zpos (digits2_pos (Pos.iter xO m d)) = Zpos (digits2_pos m) + Zpos d.
Proof.
  induction d as [ | d IH ] using Pos.peano_ind.
  - cbn. lia.
  - rewrite Pos.iter_succ. cbn [digits2_pos]. lia.
Qed.

Lemma shr_1_digits r :
  0 <= shr_m r ->
  0 <= shr_m (shr_1 r) /\ Zdigits2 (shr_m (shr_1 r)) = Z.max 0 (Zdigits2 (shr_m r) - 1).
Proof.
  destruct r as [m rb sb]. cbn [shr_m]. intros Hm.
  destruct m as [ | [ p | p | ] | ];
    cbn [shr_1 shr_m Zdigits2 digits2_pos orb]; lia.
Qed.

Lemma iter_shr_digits (n : positive) : forall r,
  0 <= shr_m r ->
  0 <= shr_m (iter_pos shr_1 n r)
  /\ Zdigits2 (shr_m (iter_pos shr_1 n r)) = Z.max 0 (Zdigits2 (shr_m r) - Zpos n).
Proof.
  induction n as [ n IH | n IH | ]; intros r Hr; cbn [iter_pos].
  - destruct (shr_1_digits r Hr) as [H1 E1].
    destruct (IH _ H1) as [H2 E2]. destruct (IH _ H2) as [H3 E3].
    split; [ exact H3 | ]. rewrite E3, E2, E1. lia.
  - destruct (IH _ Hr) as [H2 E2]. destruct (IH _ H2) as [H3 E3].
    split; [ exact H3 | ]. rewrite E3, E2. lia.
  - apply shr_1_digits. exact Hr.
Qed.

Lemma shr_fexp_digits m e l :
  0 <= m ->
  let '(r, e') := shr_fexp prec emax m e l in
  0 <= shr_m r
  /\ (e <= fexp prec emax (Zdigits2 m + e) ->
      e' = fexp prec emax (Zdigits2 m + e)
      /\ Zdigits2 (shr_m r) = Z.max 0 (Zdigits2 m + e - e'))
  /\ e' <= Z.max e (fexp prec emax (Zdigits2 m + e))
  /\ Zdigits2 (shr_m r) <= Zdigits2 m.
Proof.
  intros Hm. unfold shr_fexp, shr.
  assert (Hrec : shr_m (shr_record_of_loc m l) = m).
  { destruct l as [ | [ | | ] ]; reflexivity. }
  pose proof (Zdigits2_nonneg m).
  destruct (fexp prec emax (Zdigits2 m + e) - e) as [ | n | n ] eqn:En.
  - rewrite Hrec. repeat split; try lia.
  - destruct (iter_shr_digits n (shr_record_of_loc m l)) as [H1 E1];
      [ rewrite Hrec; exact Hm | ].
    rewrite Hrec in E1. rewrite E1.
    repeat split; try lia.
  - rewrite Hrec. repeat split; try lia.
Qed.

Lemma rne_bounds m l : 0 <= m -> m <= round_nearest_even m l <= m + 1.
Proof.
  intros Hm. destruct l as [ | [ | | ] ]; cbn [round_nearest_even]; try lia.
  destruct (Z.even m); lia.
Qed.

Lemma round_aux_at_most s (mz : positive) e :
  e <= fexp prec emax (Zpos (digits2_pos mz) + e) ->
  at_most s (fexp prec emax (Zpos (digits2_pos mz) + e) + 1)
          (binary_round_aux prec emax s (Zpos mz) e loc_Exact).
Proof.
  intros Hle. unfold binary_round_aux.
  pose proof (shr_fexp_digits (Zpos mz) e loc_Exact ltac:(lia)) as H1.
  destruct (shr_fexp prec emax (Zpos mz) e loc_Exact) as [r1 e1].
  destruct H1 as (N1 & E1 & _ & _).
  destruct (E1 Hle) as [-> D1]. clear E1.
  pose proof (rne_bounds (shr_m r1) (loc_of_shr_record r1) N1) as [R1 R2].
  set (m2 := round_nearest_even (shr_m r1) (loc_of_shr_record r1)) in *.
  pose proof (shr_fexp_digits m2 (fexp prec emax (Zdigits2 (Zpos mz) + e))
                              loc_Exact ltac:(lia)) as H2.
  destruct (shr_fexp prec emax m2 _ loc_Exact) as [r2 e2].
  destruct H2 as (N2 & _ & B2 & _).
  assert (Hd : Zdigits2 m2 <= Zdigits2 (shr_m r1) + 1).
  { etransitivity; [ apply (Zdigits2_mono m2 (shr_m r1 + 1)); lia | ].
    now apply Zdigits2_succ. }
  cbn [Zdigits2] in *.
  unfold fexp, emin, prec, emax in *.
  destruct (shr_m r2) as [ | m | m ]; cbn [at_most]; [ reflexivity | | lia ].
  destruct (e2 <=? 1024 - 53) eqn:Hov; cbn [at_most]; unfold emax, prec.
  - split; [ reflexivity | lia ].
  - apply Z.leb_gt in Hov. split; [ reflexivity | lia ].
Qed.

Lemma shl_align_digits mx ex ex' :
  Zpos (digits2_pos (fst (shl_align mx ex ex'))) + snd (shl_align mx ex ex')
  = Zpos (digits2_pos mx) + ex
  /\ snd (shl_align mx ex ex') <= ex
  /\ (ex' <= ex -> snd (shl_align mx ex ex') = ex')
  /\ (ex <= ex' -> shl_align mx ex ex' = (mx, ex)).
Proof.
  unfold shl_align. destruct (ex' - ex) as [ | d | d ] eqn:Ed; cbn [fst snd].
  - repeat split; lia.
  - repeat split; lia.
  - rewrite digits_iter_xO. repeat split; try lia.
Qed.

Lemma round_at_most s (q : positive) ez :
  at_most s (fexp prec emax (Zpos (digits2_pos q) + ez) + 1)
          (binary_round prec emax s q ez).
Proof.
  unfold binary_round.
  pose proof (shl_align_digits q ez (fexp prec emax (Zpos (digits2_pos q) + ez)))
    as (Hd & Hle & Hlo & Hhi).
  destruct (shl_align q ez _) as [mz ez'] eqn:Es. cbn [fst snd] in *.
  rewrite <- Hd. apply round_aux_at_most. rewrite Hd.
  destruct (Z.le_gt_cases (fexp prec emax (Zpos (digits2_pos q) + ez)) ez) as [H|H].
  - rewrite (Hlo H). lia.
  - lia.
Qed.

Lemma at_most_true_nonpos B R : at_most true B R -> nonpos R.
Proof. destruct R as [ ? | [] | | [] ? ? ]; cbn; intuition congruence. Qed.

Lemma nonpos_small R : nonpos R -> small R.
Proof. destruct R as [ ? | [] | | [] ? ? ]; cbn; tauto. Qed.

Lemma at_most_small s B R : B <= -50 -> at_most s B R -> small R.
Proof.
  intros HB. destruct R as [ ? | [] | | [] ? ? ]; cbn; unfold emax, prec;
    try tauto; lia.
Qed.

Lemma normalize_neg q e :
  nonpos (binary_normalize prec emax (Zneg q) e false).
Proof. cbn [binary_normalize]. exact (at_most_true_nonpos _ _ (round_at_most true q e)). Qed.

(** [2 + t] for [t <= 0]: not NaN and below 8. *)
Lemma add_two_nonpos T :
  valid_binary T = true -> nonpos T ->
  small (SF64add (S754_finite false two52 (-51)) T).
Proof.
  intros Hv Hn. destruct T as [ s | [] | | [] m e ]; try contradiction;
    cbn [SF64add SFadd]; try exact I.
  - unfold SF64add, SFadd. cbn. lia.
  - unfold SF64add, SFadd. cbn [cond_Zopp].
    set (ez := Z.min (-51) e).
    pose proof (shl_align_digits two52 (-51) ez) as (Da & _ & Ea & _).
    pose proof (shl_align_digits m e ez) as (Db & _ & Eb & _).
    destruct (shl_align two52 (-51) ez) as [a ea].
    destruct (shl_align m e ez) as [b eb].
    cbn [fst snd] in *.
    rewrite Ea in Da by lia.
    change (Z.pos (digits2_pos two52)) with 53 in Da.
    destruct (Z.pos a + - Z.pos b) as [ | q | q ] eqn:Ez.
    + exact I.
    + cbn [binary_normalize].
      apply (at_most_small false (fexp prec emax (Z.pos (digits2_pos q) + ez) + 1)).
      * assert (Hq : Zdigits2 (Zpos q) <= Zdigits2 (Zpos a))
          by (apply Zdigits2_mono; lia).
        cbn [Zdigits2] in Hq. unfold fexp, emin, prec, emax. lia.
      * apply round_at_most.
    + apply nonpos_small, normalize_neg.
Qed.

Lemma leb_nonpos_zero R : nonpos R -> SFleb R (S754_zero false) = true.
Proof. destruct R as [ ? | [] | | [] ? ? ]; cbn; tauto. Qed.

Lemma sub_sixteen_small X :
  valid_binary X = true -> small X ->
  SFleb (SF64sub X (S754_finite false two52 (-48))) (S754_zero false) = true.
Proof.
  intros Hv Hs. apply leb_nonpos_zero.
  destruct X as [ s | [] | | [] m e ]; try contradiction;
    unfold SF64sub, SFsub; try exact I.
  - cbn [cond_Zopp]. 
    destruct (shl_align m e _) as [a ea], (shl_align two52 (-48) _) as [b eb].
    cbn [fst]. change (Z.neg a - Z.pos b) with (Z.neg (a + b)).
    apply normalize_neg.
  - cbn [small] in Hs. cbn [cond_Zopp].
    replace (Z.min e (-48)) with e by lia.
    pose proof (shl_align_digits m e e) as (_ & _ & _ & Ea).
    rewrite (Ea ltac:(lia)). cbn [fst].
    pose proof (shl_align_digits two52 (-48) e) as (Db & _ & Eb & _).
    destruct (shl_align two52 (-48) e) as [b eb]. cbn [fst snd] in *.
    rewrite Eb in Db by lia.
    change (Z.pos (digits2_pos two52)) with 53 in Db.
    cbn [valid_binary] in Hv. unfold bounded, canonical_mantissa in Hv.
    apply andb_prop in Hv. destruct Hv as [Hc _]. apply Z.eqb_eq in Hc.
    unfold fexp, emin, prec, emax in Hc.
    assert (Hlt : Zpos m < Zpos b).
    { apply Z.nle_gt. intros Hge.
      assert (Hd : Zdigits2 (Zpos b) <= Zdigits2 (Zpos m))
        by (apply Zdigits2_mono; lia).
      cbn [Zdigits2] in Hd. lia. }
    destruct (Z.pos m - Z.pos b) as [ | q | q ] eqn:Ez; try lia.
    apply normalize_neg.
Qed.

(** Signs of products. *)
Lemma round_aux_sign s m e l :
  binary_round_aux prec emax s m e l = S754_nan
  \/ at_most s (emax + emax) (binary_round_aux prec emax s m e l).
Proof.
  unfold binary_round_aux.
  destruct (shr_fexp prec emax m e l) as [r1 e1].
  destruct (shr_fexp prec emax _ e1 loc_Exact) as [r2 e2].
  destruct (shr_m r2); [ right; reflexivity | | left; reflexivity ].
  destruct (e2 <=? emax - prec) eqn:E; right; cbn [at_most].
  - apply Z.leb_le in E. unfold emax, prec in *. split; [ reflexivity | lia ].
  - unfold emax, prec. split; [ reflexivity | lia ].
Qed.

Lemma mul_nonneg_nonpos A B :
  nonneg A -> nonpos B ->
  SF64mul A B = S754_nan \/ nonpos (SF64mul A B).
Proof.
  intros HA HB.
  destruct A as [ sa | [] | | [] ma ea ]; try contradiction;
    destruct B as [ sb | [] | | [] mb eb ]; try contradiction;
    unfold SF64mul, SFmul; cbn [xorb]; auto; try (right; exact I).
  destruct (round_aux_sign true (Zpos (ma * mb)) (ea + eb) loc_Exact) as [H|H];
    [ now left | right; exact (at_most_true_nonpos _ _ H) ].
Qed.

Lemma mul_nonpos_nonneg A B :
  nonpos A -> nonneg B ->
  SF64mul A B = S754_nan \/ nonpos (SF64mul A B).
Proof.
  intros HA HB.
  destruct A as [ sa | [] | | [] ma ea ]; try contradiction;
    destruct B as [ sb | [] | | [] mb eb ]; try contradiction;
    unfold SF64mul, SFmul; cbn [xorb]; auto; try (right; exact I).
  destruct (round_aux_sign true (Zpos (ma * mb)) (ea + eb) loc_Exact) as [H|H];
    [ now left | right; exact (at_most_true_nonpos _ _ H) ].
Qed.

Lemma mul_nan_l B : SF64mul S754_nan B = S754_nan.
Proof. reflexivity. Qed.

(** Rounding a positive mantissa never gives NaN. *)
Lemma round_aux_not_nan s (m : positive) e l :
  binary_round_aux prec emax s (Zpos m) e l <> S754_nan.
Proof.
  unfold binary_round_aux.
  pose proof (shr_fexp_digits (Zpos m) e l ltac:(lia)) as H1.
  destruct (shr_fexp prec emax (Zpos m) e l) as [r1 e1].
  destruct H1 as (N1 & _).
  pose proof (rne_bounds (shr_m r1) (loc_of_shr_record r1) N1) as [R1 _].
  set (m2 := round_nearest_even (shr_m r1) (loc_of_shr_record r1)) in *.
  pose proof (shr_fexp_digits m2 e1 loc_Exact ltac:(lia)) as H2.
  destruct (shr_fexp prec emax m2 e1 loc_Exact) as [r2 e2].
  destruct H2 as (N2 & _).
  destruct (shr_m r2) as [ | q | q ]; [ discriminate | | lia ].
  destruct (e2 <=? emax - prec); discriminate.
Qed.

(** A negative finite number times one that is not negative. *)
Lemma mul_negative_nonneg (m : positive) e B :
  nonneg B ->
  nonpos (SF64mul (S754_finite true m e) B).
Proof.
  intros HB.
  destruct B as [ sb | [] | | [] mb eb ]; try contradiction;
    unfold SF64mul, SFmul; cbn [xorb]; try exact I.
  destruct (round_aux_sign true (Zpos (m * mb)) (e + eb) loc_Exact) as [H|H].
  - now apply round_aux_not_nan in H.
  - exact (at_most_true_nonpos _ _ H).
Qed.

End Binary64Rounding.

(** * The left wall in binary64 *)

Module Binary64Walls.

Import SpecFloat FloatOps FloatAxioms.
Import Binary64 Binary64Shape Binary64Rounding.

Implicit Types (w : World PrimFloat.float) (dt t s d v : PrimFloat.float).

Lemma two_bits : Prim2SF (lit 2) = S754_finite false two52 (-51).
Proof. reflexivity. Qed.

Lemma sixteen_bits : Prim2SF (lit 16) = S754_finite false two52 (-48).
Proof. reflexivity. Qed.

Lemma zero_bits : Prim2SF (lit 0) = S754_zero false.
Proof. reflexivity. Qed.

Lemma not_nan_bits v : v <> PrimFloat.nan -> Prim2SF v <> S754_nan.
Proof.
  intros Hv E. apply Hv. apply Prim2SF_inj. rewrite E. reflexivity.
Qed.

Lemma leb_zero_nonneg v : (lit 0 <=? v) = true -> nonneg (Prim2SF v).
Proof.
  cbn [leb double]. rewrite leb_spec, zero_bits.
  destruct (Prim2SF v) as [ ? | [] | | [] ? ? ]; cbn; intros; auto;
    discriminate.
Qed.

Lemma ltb_zero_nonpos v : PrimFloat.ltb v (lit 0) = true -> nonpos (Prim2SF v).
Proof.
  rewrite ltb_spec, zero_bits.
  destruct (Prim2SF v) as [ ? | [] | | [] ? ? ]; cbn; intros; auto;
    discriminate.
Qed.

(** The displacement of a ball moving left is NaN or not positive. *)
Lemma step_nonpos s d dt :
  (lit 0 <=? s) = true -> PrimFloat.ltb d (lit 0) = true ->
  (lit 0 <=? dt) = true ->
  s * d * dt <> PrimFloat.nan ->
  nonpos (Prim2SF (s * d * dt)).
Proof.
  intros Hs Hd Hdt Hnan.
  apply leb_zero_nonneg in Hs, Hdt. apply ltb_zero_nonpos in Hd.
  apply not_nan_bits in Hnan.
  cbn [mul double] in *. rewrite !mul_spec in *.
  destruct (mul_nonneg_nonpos _ _ Hs Hd) as [E | Hp].
  - rewrite E in Hnan. now contradiction Hnan.
  - destruct (mul_nonpos_nonneg _ _ Hp Hdt) as [E | Ht]; [ | exact Ht ].
    now contradiction Hnan.
Qed.

(** From [x = 2], a displacement that is not positive leaves the ball
    touching the left wall: [2 + t - 16 <= 0]. *)
Lemma two_plus_nonpos t :
  nonpos (Prim2SF t) ->
  (lit 2 + t - lit 16 <=? lit 0) = true.
Proof.
  intros Ht. cbn [leb sub add double].
  rewrite leb_spec, zero_bits, sub_spec, sixteen_bits.
  apply sub_sixteen_small; [ apply Prim2SF_valid | ].
  rewrite add_spec, two_bits.
  apply add_two_nonpos; [ apply Prim2SF_valid | exact Ht ].
Qed.

(** In the program the displacement of a ball moving left is not NaN. *)
Lemma program_step_not_nan (k : Z) dt :
  (1 <= k <= 5)%Z -> (lit 0 <=? dt) = true ->
  lit 20 * lit (- k) * dt <> PrimFloat.nan.
Proof.
  intros Hk Hdt E. apply leb_zero_nonneg in Hdt.
  apply (f_equal Prim2SF) in E. cbn [mul double] in E.
  rewrite mul_spec in E.
  assert (Hp : exists m e,
             Prim2SF (PrimFloat.mul (lit 20) (lit (- k)))
             = S754_finite true m e).
  { assert (Hc : k = 1%Z \/ k = 2%Z \/ k = 3%Z \/ k = 4%Z \/ k = 5%Z) by lia.
    destruct Hc as [-> | [-> | [-> | [-> | ->]]]];
      eexists; eexists; vm_compute; reflexivity. }
  destruct Hp as (m & e & Hp). rewrite Hp in E.
  pose proof (mul_negative_nonneg m e _ Hdt) as Hn.
  rewrite E in Hn. exact Hn.
Qed.

(** C4, as amended: the ball at [x = 2] with radius 16, moving left
    ([dx < 0]), for every speed [>= 0] and elapsed time [>= 0], in
    binary64.  Unless the displacement [speed * dx * dt] is NaN, once
    the position is updated [x - radius <= 0] holds and the update
    callback negates [dx].  When the displacement is NaN (an infinite
    product times 0, or 0 times Infinity) the new [x] is NaN and [dx]
    is left as it is.  With the speed 20 and the velocities -1 to -5 of
    the program the displacement is never NaN. *)
Theorem left_wall_negates_dx w dt :
  x (vars w) = lit 2 ->
  radius (vars w) = lit 16 ->
  PrimFloat.ltb (dx (vars w)) (lit 0) = true ->
  (lit 0 <=? speed (vars w)) = true ->
  (lit 0 <=? dt) = true ->
  let step := speed (vars w) * dx (vars w) * dt in
  let m := move dt w in
  (step <> PrimFloat.nan ->
   (x (vars m) - radius (vars m) <=? lit 0) = true
   /\ dx (vars (update dt w)) = - dx (vars w))
  /\ (step = PrimFloat.nan ->
      x (vars m) = PrimFloat.nan
      /\ dx (vars (update dt w)) = dx (vars w))
  /\ (forall k : Z, (1 <= k <= 5)%Z ->
      speed (vars w) = lit 20 -> dx (vars w) = lit (- k) ->
      step <> PrimFloat.nan).
Proof.
  intros Hx Hr Hdx Hs Hdt step m.
  assert (Em : x (vars m) = lit 2 + step).
  { subst m step. rewrite move_vars. cbn [x]. now rewrite Hx. }
  assert (Eu : dx (vars (update dt w))
               = if touching (lit 16) (width (passion w)) (lit 2 + step)
                 then - dx (vars w) else dx (vars w)).
  { unfold update. rewrite bounce_vars, move_vars. cbn [dx].
    unfold hits_x. rewrite move_vars. cbn [x radius passion move assign_y
      assign_x vars]. rewrite Hx, Hr. reflexivity. }
  assert (Rm : radius (vars m) = lit 16).
  { subst m. rewrite move_vars. exact Hr. }
  split; [ | split ].
  - intros Hnan.
    assert (Ht : (lit 2 + step - lit 16 <=? lit 0) = true).
    { apply two_plus_nonpos. now apply step_nonpos. }
    rewrite Em, Rm, Eu. unfold touching. rewrite Ht. now split.
  - intros Hnan. rewrite Em, Eu, Hnan. cbn [add double].
    rewrite Binary64Edge.add_nan_r, Binary64Edge.touching_nan. now split.
  - intros k Hk Hs20 Hdk. subst step. rewrite Hs20, Hdk.
    now apply program_step_not_nan.
Qed.

End Binary64Walls.

(** * The magnitude of the velocity in binary64 *)

Module Binary64Velocity.

Import SpecFloat FloatOps FloatAxioms.
Import Binary64 Binary64Shape.

Implicit Types (w v : World PrimFloat.float) (dt s d p : PrimFloat.float).

Lemma abs_opp d : PrimFloat.abs (PrimFloat.opp d) = PrimFloat.abs d.
Proof.
  apply Prim2SF_inj. rewrite !abs_spec, opp_spec.
  destruct (Prim2SF d); reflexivity.
Qed.

Lemma update_abs dt w :
  PrimFloat.abs (dx (vars (update dt w))) = PrimFloat.abs (dx (vars w))
  /\ PrimFloat.abs (dy (vars (update dt w))) = PrimFloat.abs (dy (vars w)).
Proof.
  destruct (update_keeps_or_negates dt w) as [[-> | ->] [-> | ->]];
    cbn [neg double]; rewrite ?abs_opp; split; reflexivity.
Qed.

Lemma play_abs w ts :
  PrimFloat.abs (dx (vars (play (demo w) ts))) = PrimFloat.abs (dx (vars w))
  /\ PrimFloat.abs (dy (vars (play (demo w) ts)))
     = PrimFloat.abs (dy (vars w)).
Proof.
  unfold play. cbn [world demo].
  apply (frames_preserve
           (fun v => PrimFloat.abs (dx (vars v)) = PrimFloat.abs (dx (vars w))
                     /\ PrimFloat.abs (dy (vars v))
                        = PrimFloat.abs (dy (vars w)))).
  - intros dt v [Hx Hy]. destruct (update_abs dt v) as [-> ->]. now split.
  - intros v Hv. exact Hv.
  - now split.
Qed.

Lemma is_zero_bits d :
  PrimFloat.is_zero d = true <-> is_a_zero (Prim2SF d).
Proof.
  unfold PrimFloat.is_zero. rewrite eqb_spec.
  change (Prim2SF PrimFloat.zero) with (S754_zero false).
  destruct (Prim2SF d) as [ ? | [] | | [] ? ? ]; cbn; intuition discriminate.
Qed.

Lemma is_finite_bits d :
  PrimFloat.is_finite d = true -> finite (Prim2SF d).
Proof.
  unfold PrimFloat.is_finite, PrimFloat.is_nan, PrimFloat.is_infinity.
  rewrite !eqb_spec, abs_spec.
  change (Prim2SF PrimFloat.infinity) with (S754_infinity false).
  destruct (Prim2SF d) as [ ? | [] | | ? ? ? ]; cbn; intros; auto;
    discriminate.
Qed.

Lemma mul_finite_zero S D :
  finite S -> is_a_zero D -> is_a_zero (SF64mul S D).
Proof.
  destruct S as [ ? | ? | | ? ? ? ], D as [ ? | ? | | ? ? ? ];
    cbn; tauto.
Qed.

Lemma mul_zero_finite Z T :
  is_a_zero Z -> finite T -> is_a_zero (SF64mul Z T).
Proof.
  destruct Z as [ ? | ? | | ? ? ? ], T as [ ? | ? | | ? ? ? ];
    cbn; tauto.
Qed.

Lemma add_zero P Z :
  is_a_zero Z ->
  SF64add P Z = P \/ (is_a_zero (SF64add P Z) /\ is_a_zero P).
Proof.
  destruct Z as [ sz | ? | | ? ? ? ]; cbn [is_a_zero]; try tauto. intros _.
  destruct P as [ [] | ? | | ? ? ? ]; destruct sz; cbn; auto.
Qed.

(** One tick on an axis without velocity, with finite speed and
    elapsed time: the velocity stays a zero and the coordinate stays
    the same number. *)
Lemma axis_step_still r s W dt p d :
  PrimFloat.is_zero d = true ->
  PrimFloat.is_finite s = true ->
  PrimFloat.is_finite dt = true ->
  PrimFloat.is_zero (snd (axis_step r s W dt (p, d))) = true
  /\ (fst (axis_step r s W dt (p, d)) = p
      \/ (PrimFloat.is_zero (fst (axis_step r s W dt (p, d))) = true
          /\ PrimFloat.is_zero p = true)).
Proof.
  intros Hd Hs Hdt. unfold axis_step. cbn [fst snd].
  split.
  - destruct (touching _ _ _); [ | exact Hd ].
    apply is_zero_bits. cbn [neg double]. rewrite opp_spec.
    apply is_zero_bits in Hd. destruct (Prim2SF d); try contradiction.
    exact I.
  - apply is_zero_bits in Hd.
    apply is_finite_bits in Hs. apply is_finite_bits in Hdt.
    pose proof (mul_zero_finite _ _ (mul_finite_zero _ _ Hs Hd) Hdt) as Hz.
    rewrite <- !mul_spec in Hz.
    destruct (add_zero (Prim2SF p) _ Hz) as [E | [Z1 Z2]].
    + left. apply Prim2SF_inj. cbn [add mul double].
      rewrite add_spec. exact E.
    + right. rewrite <- add_spec in Z1.
      split; apply is_zero_bits; assumption.
Qed.

(** A property kept by the draw callback and by every update with a
    finite elapsed time is kept by every schedule of finite ticks. *)
Lemma finite_frames_preserve (P : World PrimFloat.float -> Prop) :
  (forall dt w, PrimFloat.is_finite dt = true -> P w -> P (update dt w)) ->
  (forall w, P w -> P (draw w)) ->
  forall ts w0 w, Forall finite_tick ts -> P w -> P (frames (demo w0) ts w).
Proof.
  intros Hu Hd ts w0. unfold frames.
  induction ts as [ | t ts IH ]; intros w Hts Hw; cbn [fold_left].
  - exact Hw.
  - inversion Hts as [ | ? ? Ht Hts' ]; subst.
    apply IH; [ exact Hts' | ].
    destruct t as [ dt | ]; cbn; auto.
Qed.

Lemma axis_still (a : Axis) w ts :
  PrimFloat.is_zero (snd (on_axis a w)) = true ->
  PrimFloat.is_finite (speed (vars w)) = true ->
  Forall finite_tick ts ->
  PrimFloat.is_zero (snd (on_axis a (play (demo w) ts))) = true
  /\ (fst (on_axis a (play (demo w) ts)) = fst (on_axis a w)
      \/ (PrimFloat.is_zero (fst (on_axis a (play (demo w) ts))) = true
          /\ PrimFloat.is_zero (fst (on_axis a w)) = true)).
Proof.
  intros Hd Hs Hts. unfold play. cbn [world demo].
  cut (speed (vars (frames (demo w) ts w)) = speed (vars w)
       /\ PrimFloat.is_zero (snd (on_axis a (frames (demo w) ts w))) = true
       /\ (fst (on_axis a (frames (demo w) ts w)) = fst (on_axis a w)
           \/ (PrimFloat.is_zero (fst (on_axis a (frames (demo w) ts w)))
                = true
               /\ PrimFloat.is_zero (fst (on_axis a w)) = true))).
  { tauto. }
  apply (finite_frames_preserve
           (fun v => speed (vars v) = speed (vars w)
                     /\ PrimFloat.is_zero (snd (on_axis a v)) = true
                     /\ (fst (on_axis a v) = fst (on_axis a w)
                         \/ (PrimFloat.is_zero (fst (on_axis a v)) = true
                             /\ PrimFloat.is_zero (fst (on_axis a w))
                                = true)))); [ | | exact Hts | ].
  - intros dt v Hdt (Sv & Zv & Pv).
    destruct (update_constants dt v) as (_ & Su & _).
    split; [ congruence | ].
    rewrite update_on_axis. rewrite <- Sv in Hs.
    destruct (on_axis a v) as [p d]. cbn [fst snd] in *.
    destruct (@axis_step_still (radius (vars v)) (speed (vars v))
                (extent a v) dt p d Zv Hs Hdt) as [Zu Pu].
    split; [ exact Zu | ].
    destruct Pu as [-> | [Z1 Z2]]; [ exact Pv | ].
    destruct Pv as [<- | [_ Z3]]; right; split; assumption.
  - intros v Hv. destruct a; exact Hv.
  - split; [ reflexivity | ]. split; [ exact Hd | now left ].
Qed.

(** C10, as amended: every call of the update callback keeps or
    negates [dx], and keeps or negates [dy]; so along any schedule of
    update and draw calls each component is its initial value or the
    negation of it (in every number system that obeys the laws of
    negation), and in binary64 [|dx|] and [|dy|] are the same after an
    update as before and after any schedule what they were at the
    start (in the program, the magnitudes of the two answers of
    [rndi]).  An axis whose velocity starts at 0 keeps a velocity that
    is 0 (plus or minus), and, as long as the speed and every elapsed
    time are finite, the ball's coordinate on that axis stays the same
    number (a coordinate that is itself 0 stays 0, plus or minus). *)
Theorem velocity_magnitude_invariant :
  (forall (num : Type) (N : Number num), NumberLaws num ->
   forall u : World num,
     (forall dt : num,
        (dx (vars (update dt u)) = dx (vars u)
         \/ dx (vars (update dt u)) = - dx (vars u))
        /\ (dy (vars (update dt u)) = dy (vars u)
            \/ dy (vars (update dt u)) = - dy (vars u)))
     /\ (forall ts : list (Tick num),
           (dx (vars (play (demo u) ts)) = dx (vars u)
            \/ dx (vars (play (demo u) ts)) = - dx (vars u))
           /\ (dy (vars (play (demo u) ts)) = dy (vars u)
               \/ dy (vars (play (demo u) ts)) = - dy (vars u))))
  /\ (forall dt w,
        PrimFloat.abs (dx (vars (update dt w))) = PrimFloat.abs (dx (vars w))
        /\ PrimFloat.abs (dy (vars (update dt w)))
           = PrimFloat.abs (dy (vars w)))
  /\ (forall w ts,
        PrimFloat.abs (dx (vars (play (demo w) ts)))
        = PrimFloat.abs (dx (vars w))
        /\ PrimFloat.abs (dy (vars (play (demo w) ts)))
           = PrimFloat.abs (dy (vars w)))
  /\ (forall (random : nat -> PrimFloat.float -> PrimFloat.float
                       -> PrimFloat.float)
             (document : Document) g ts,
        game (on_DOMContentLoaded random document) = Some g ->
        PrimFloat.abs (dx (vars (play g ts)))
        = PrimFloat.abs (random 0%nat (lit (-5)) (lit 5))
        /\ PrimFloat.abs (dy (vars (play g ts)))
           = PrimFloat.abs (random 1%nat (lit (-5)) (lit 5)))
  /\ (forall w ts,
        PrimFloat.is_zero (dx (vars w)) = true ->
        PrimFloat.is_finite (speed (vars w)) = true ->
        Forall finite_tick ts ->
        PrimFloat.is_zero (dx (vars (play (demo w) ts))) = true
        /\ (x (vars (play (demo w) ts)) = x (vars w)
            \/ (PrimFloat.is_zero (x (vars (play (demo w) ts))) = true
                /\ PrimFloat.is_zero (x (vars w)) = true)))
  /\ (forall w ts,
        PrimFloat.is_zero (dy (vars w)) = true ->
        PrimFloat.is_finite (speed (vars w)) = true ->
        Forall finite_tick ts ->
        PrimFloat.is_zero (dy (vars (play (demo w) ts))) = true
        /\ (y (vars (play (demo w) ts)) = y (vars w)
            \/ (PrimFloat.is_zero (y (vars (play (demo w) ts))) = true
                /\ PrimFloat.is_zero (y (vars w)) = true))).
Proof.
  split.
  { intros num N L u. split.
    - intros dt. apply update_keeps_or_negates.
    - intros ts. apply play_keeps_or_negates. }
  split; [ exact update_abs | ].
  split; [ exact play_abs | ].
  split; [ | split ].
  - intros random document g ts Hg.
    destruct (document "app"%string) as [ app | ] eqn:Happ.
    + rewrite (handler_with_canvas random document Happ) in Hg.
      cbn [game] in Hg. injection Hg as <-.
      exact (play_abs _ ts).
    + unfold on_DOMContentLoaded in Hg. rewrite Happ in Hg. discriminate.
  - intros w ts Hd Hs Hts. exact (@axis_still horizontal w ts Hd Hs Hts).
  - intros w ts Hd Hs Hts. exact (@axis_still vertical w ts Hd Hs Hts).
Qed.

End Binary64Velocity.

(** * The amended statements at concrete inputs *)

(** The claim C4 as first stated fails in binary64: with [x = 2],
    radius 16, speed 20, [dx = -2^1020] and an elapsed time of 0, the
    product [speed * dx] overflows to minus infinity, the displacement
    is NaN, the new [x] is NaN, the test is false and [dx] is not
    negated. *)
Lemma left_wall_overflow_counterexample :
  x (vars overflowing_ball) = lit 2
  /\ radius (vars overflowing_ball) = lit 16
  /\ PrimFloat.ltb (dx (vars overflowing_ball)) (lit 0) = true
  /\ (lit 0 <=? speed (vars overflowing_ball)) = true
  /\ (lit 0 <=? (lit 0 : PrimFloat.float)) = true
  /\ (x (vars (move (lit 0) overflowing_ball))
      - radius (vars (move (lit 0) overflowing_ball)) <=? lit 0) = false
  /\ dx (vars (update (lit 0) overflowing_ball)) = dx (vars overflowing_ball)
  /\ PrimFloat.eqb (dx (vars (update (lit 0) overflowing_ball)))
                   (- dx (vars overflowing_ball)) = false.
Proof.
  repeat split; vm_compute; reflexivity.
Qed.

(** The ball at [x = 2] moving left at -3 in binary64, after 0.1
    seconds: the displacement is -6, not NaN, so [x - radius <= 0] and
    [dx] becomes 3. *)
Lemma left_wall_negates_dx_witness :
  (x (vars (move Binary64.tenth (ball (lit 2) (lit 120) (lit (-3)) (lit 2))))
   - radius (vars (move Binary64.tenth
                     (ball (lit 2) (lit 120) (lit (-3)) (lit 2))))
   <=? lit 0) = true
  /\ dx (vars (update Binary64.tenth
                 (ball (lit 2) (lit 120) (lit (-3)) (lit 2)))) = lit 3.
Proof.
  pose proof (@Binary64Walls.left_wall_negates_dx
                (ball (lit 2) (lit 120) (lit (-3)) (lit 2)) Binary64.tenth)
    as H.
  destruct H as (Hneg & _ & _); try reflexivity.
  apply Hneg. intros E.
  apply (f_equal FloatOps.Prim2SF) in E. vm_compute in E. discriminate E.
Defined.

(** The claim C10 as first stated fails in binary64: in the program,
    when [rndi] answers 0, [dx] starts at 0 and [x] at 180; one update
    with an infinite elapsed time turns [x] into NaN. *)
Lemma still_axis_counterexample :
  exists g : Game PrimFloat.float,
    game (on_DOMContentLoaded (answering (lit 0)) page_with_canvas) = Some g
    /\ dx (vars (world g)) = lit 0
    /\ x (vars (world g)) = lit 180
    /\ x (vars (play g [tick_update PrimFloat.infinity])) = PrimFloat.nan
    /\ PrimFloat.eqb (x (vars (play g [tick_update PrimFloat.infinity])))
                     (x (vars (world g))) = false.
Proof.
  rewrite (handler_with_canvas (answering (lit 0)) page_with_canvas
             (app := canvas "app") eq_refl).
  cbn [game]. eexists. split; [ reflexivity | ].
  repeat split; vm_compute; reflexivity.
Qed.

(** In binary64, with a random source that answers -5 twice: after
    three updates and a draw, [|dx|] is still 5; and a ball with
    [dx = 0] keeps [dx] a zero and [x] at 180 over finite ticks. *)
Lemma velocity_magnitude_invariant_witness :
  (exists g : Game PrimFloat.float,
     game (on_DOMContentLoaded lowest page_with_canvas) = Some g
     /\ PrimFloat.abs
          (dx (vars (play g [tick_update Binary64.tenth; tick_draw;
                             tick_update (lit 1); tick_update (lit 3)])))
        = PrimFloat.abs (lowest 0%nat (lit (-5)) (lit 5)))
  /\ (PrimFloat.is_zero
        (dx (vars (play (demo (ball (lit 180) (lit 120) (lit 0) (lit 3)))
                        [tick_update (lit 1); tick_draw;
                         tick_update (lit 40)]))) = true
      /\ (x (vars (play (demo (num := PrimFloat.float)
                                   (ball (lit 180) (lit 120) (lit 0) (lit 3)))
                        [tick_update (lit 1); tick_draw;
                         tick_update (lit 40)]))
          = x (vars (ball (lit 180) (lit 120) (lit 0) (lit 3)))
          \/ (PrimFloat.is_zero
                (x (vars (play (demo (ball (lit 180) (lit 120) (lit 0)
                                          (lit 3)))
                               [tick_update (lit 1); tick_draw;
                                tick_update (lit 40)]))) = true
              /\ PrimFloat.is_zero
                   (x (vars (ball (lit 180) (lit 120) (lit 0) (lit 3))))
                 = true))).
Proof.
  pose proof Binary64Velocity.velocity_magnitude_invariant
    as (_ & _ & _ & Hprog & Hstill & _).
  split.
  - destruct (game (on_DOMContentLoaded (num := PrimFloat.float)
                      lowest page_with_canvas)) as [ g | ] eqn:Hg.
    + exists g. split; [ reflexivity | ].
      exact (proj1 (Hprog lowest page_with_canvas g _ Hg)).
    + rewrite (handler_with_canvas lowest page_with_canvas
                 (app := canvas "app") eq_refl) in Hg.
      discriminate Hg.
  - apply Hstill.
    + reflexivity.
    + reflexivity.
    + repeat constructor.
Defined.
